(** * marvin.utilities.asyncutils: a shallow embedding

    The module under study is a thin interop layer over Python's [asyncio]:
    [create_task], [run_async], [run_sync], [expose_sync_method] and
    [ExposeSyncMethodsMixin.__init_subclass__].  Its own code is control
    flow (try/except, with-blocks, attribute installation) around host
    primitives.  The host primitives (event loops, thread pools, tasks)
    are modelled below as operations on an explicit [world]; the functions
    of the module are then transcribed on top of them in a small
    reader/state/exception monad. *)

From stdpp Require Import gmap strings list fin_maps.

Open Scope string_scope.
Open Scope list_scope.
Open Scope stdpp_scope.

(** ** Python values and exceptions *)

Inductive pyval :=
| VNone
| VInt (z : Z)
| VStr (s : string)
| VObj (id : nat).

#[global] Instance pyval_eq_dec : EqDecision pyval.
Proof. solve_decision. Defined.

(** The exception classes that matter for the module, with the host's
    inheritance chain.  [UserError name base] is a class defined by user
    code as a subclass of [base]. *)
Inductive exc_class :=
| BaseException
| Exception
| RuntimeError
| NotImplementedError
| RecursionError
| ValueError
| TypeError
| AttributeError
| CancelledError
| KeyboardInterrupt
| UserError (name : string) (base : exc_class).

#[global] Instance exc_class_eq_dec : EqDecision exc_class.
Proof. solve_decision. Defined.

(** Method resolution order of an exception class (single inheritance). *)
Fixpoint mro (c : exc_class) : list exc_class :=
  match c with
  | BaseException => [BaseException]
  | Exception => [Exception; BaseException]
  | RuntimeError => [RuntimeError; Exception; BaseException]
  | NotImplementedError =>
      [NotImplementedError; RuntimeError; Exception; BaseException]
  | RecursionError =>
      [RecursionError; RuntimeError; Exception; BaseException]
  | ValueError => [ValueError; Exception; BaseException]
  | TypeError => [TypeError; Exception; BaseException]
  | AttributeError => [AttributeError; Exception; BaseException]
  | CancelledError => [CancelledError; BaseException]
  | KeyboardInterrupt => [KeyboardInterrupt; BaseException]
  | UserError n b => UserError n b :: mro b
  end.

Definition issubclass (c d : exc_class) : bool := bool_decide (d ∈ mro c).

Record exn := Exn { exc_type : exc_class; exc_msg : string }.

#[global] Instance exn_eq_dec : EqDecision exn.
Proof. solve_decision. Defined.

Definition isinstance (e : exn) (c : exc_class) : bool :=
  issubclass (exc_type e) c.

(** How a piece of Python code ends: it returns, it raises, or it never
    comes back. *)
Inductive outcome (A : Type) :=
| Return (a : A)
| Raise (e : exn)
| Diverge.
Arguments Return {A} a.
Arguments Raise {A} e.
Arguments Diverge {A}.

(** A coroutine object: an identity (coroutine objects are single-use, the
    host tracks which ones were already awaited) and what its body does
    when driven by an event loop. *)
Record coroutine := Coroutine { co_id : nat; co_body : outcome pyval }.

(** A blocking callable, applied to its positional arguments. *)
Definition pyfunc := list pyval → outcome pyval.

(** A coroutine function ([async def]): the behaviour of the coroutine it
    creates for given arguments. *)
Definition async_fn := list pyval → outcome pyval.

(** ** The host world *)

Inductive event :=
| EvSpawn (t : nat)            (* a worker thread is started *)
| EvJoin (t : nat)             (* a worker thread is joined *)
| EvLoopStart (t l : nat)      (* loop [l] starts running on thread [t] *)
| EvLoopStop (t l : nat)       (* loop [l] stops and is closed *)
| EvDrive (t c : nat)          (* coroutine [c] is driven on thread [t] *)
| EvCall (t : nat).            (* a blocking callable runs on thread [t] *)

(** The thread an event happens on (for spawn and join: the worker). *)
Definition event_thread (e : event) : nat :=
  match e with
  | EvSpawn t | EvJoin t | EvLoopStart t _ | EvLoopStop t _
  | EvDrive t _ | EvCall t => t
  end.

#[global] Instance event_eq_dec : EqDecision event.
Proof. solve_decision. Defined.

Inductive task_status :=
| Pending
| Finished (v : pyval)
| Failed (e : exn)
| Cancelled.

#[global] Instance task_status_eq_dec : EqDecision task_status.
Proof. solve_decision. Defined.

Definition terminal (s : task_status) : bool :=
  match s with Pending => false | _ => true end.

(** Done-callbacks.  The module registers exactly one kind, the bound
    method [BACKGROUND_TASKS.discard]; [CbOther] stands for any callback
    other code attaches to a task. *)
Inductive callback :=
| CbDiscard
| CbOther (n : nat).

#[global] Instance callback_eq_dec : EqDecision callback.
Proof. solve_decision. Defined.

Record task := Task {
  task_coro : nat;
  task_loop : nat;
  task_state : task_status;
  task_callbacks : list callback
}.

Record world := World {
  running_loop : gmap nat nat;      (* thread ↦ its running loop *)
  loop_thread : gmap nat nat;       (* loop ↦ thread it is running on *)
  live_threads : gset nat;
  next_thread : nat;
  next_loop : nat;
  next_coro : nat;
  awaited : gset nat;               (* coroutine objects already driven *)
  pools : gmap nat (list nat);      (* executor ↦ its worker threads *)
  next_pool : nat;
  tasks : gmap nat task;
  next_task : nat;
  ready : list (callback * nat);    (* call_soon queue: callback, task *)
  BACKGROUND_TASKS : gset nat;
  trace : list event
}.

Definition set_running_loop (f : gmap nat nat → gmap nat nat) (w : world) :=
  World (f (running_loop w)) (loop_thread w) (live_threads w) (next_thread w)
    (next_loop w) (next_coro w) (awaited w) (pools w) (next_pool w) (tasks w)
    (next_task w) (ready w) (BACKGROUND_TASKS w) (trace w).
Definition set_loop_thread (f : gmap nat nat → gmap nat nat) (w : world) :=
  World (running_loop w) (f (loop_thread w)) (live_threads w) (next_thread w)
    (next_loop w) (next_coro w) (awaited w) (pools w) (next_pool w) (tasks w)
    (next_task w) (ready w) (BACKGROUND_TASKS w) (trace w).
Definition set_live_threads (f : gset nat → gset nat) (w : world) :=
  World (running_loop w) (loop_thread w) (f (live_threads w)) (next_thread w)
    (next_loop w) (next_coro w) (awaited w) (pools w) (next_pool w) (tasks w)
    (next_task w) (ready w) (BACKGROUND_TASKS w) (trace w).
Definition set_next_thread (f : nat → nat) (w : world) :=
  World (running_loop w) (loop_thread w) (live_threads w) (f (next_thread w))
    (next_loop w) (next_coro w) (awaited w) (pools w) (next_pool w) (tasks w)
    (next_task w) (ready w) (BACKGROUND_TASKS w) (trace w).
Definition set_next_loop (f : nat → nat) (w : world) :=
  World (running_loop w) (loop_thread w) (live_threads w) (next_thread w)
    (f (next_loop w)) (next_coro w) (awaited w) (pools w) (next_pool w)
    (tasks w) (next_task w) (ready w) (BACKGROUND_TASKS w) (trace w).
Definition set_next_coro (f : nat → nat) (w : world) :=
  World (running_loop w) (loop_thread w) (live_threads w) (next_thread w)
    (next_loop w) (f (next_coro w)) (awaited w) (pools w) (next_pool w)
    (tasks w) (next_task w) (ready w) (BACKGROUND_TASKS w) (trace w).
Definition set_awaited (f : gset nat → gset nat) (w : world) :=
  World (running_loop w) (loop_thread w) (live_threads w) (next_thread w)
    (next_loop w) (next_coro w) (f (awaited w)) (pools w) (next_pool w)
    (tasks w) (next_task w) (ready w) (BACKGROUND_TASKS w) (trace w).
Definition set_pools (f : gmap nat (list nat) → gmap nat (list nat))
    (w : world) :=
  World (running_loop w) (loop_thread w) (live_threads w) (next_thread w)
    (next_loop w) (next_coro w) (awaited w) (f (pools w)) (next_pool w)
    (tasks w) (next_task w) (ready w) (BACKGROUND_TASKS w) (trace w).
Definition set_next_pool (f : nat → nat) (w : world) :=
  World (running_loop w) (loop_thread w) (live_threads w) (next_thread w)
    (next_loop w) (next_coro w) (awaited w) (pools w) (f (next_pool w))
    (tasks w) (next_task w) (ready w) (BACKGROUND_TASKS w) (trace w).
Definition set_tasks (f : gmap nat task → gmap nat task) (w : world) :=
  World (running_loop w) (loop_thread w) (live_threads w) (next_thread w)
    (next_loop w) (next_coro w) (awaited w) (pools w) (next_pool w)
    (f (tasks w)) (next_task w) (ready w) (BACKGROUND_TASKS w) (trace w).
Definition set_next_task (f : nat → nat) (w : world) :=
  World (running_loop w) (loop_thread w) (live_threads w) (next_thread w)
    (next_loop w) (next_coro w) (awaited w) (pools w) (next_pool w)
    (tasks w) (f (next_task w)) (ready w) (BACKGROUND_TASKS w) (trace w).
Definition set_ready (f : list (callback * nat) → list (callback * nat))
    (w : world) :=
  World (running_loop w) (loop_thread w) (live_threads w) (next_thread w)
    (next_loop w) (next_coro w) (awaited w) (pools w) (next_pool w)
    (tasks w) (next_task w) (f (ready w)) (BACKGROUND_TASKS w) (trace w).
Definition set_BACKGROUND_TASKS (f : gset nat → gset nat) (w : world) :=
  World (running_loop w) (loop_thread w) (live_threads w) (next_thread w)
    (next_loop w) (next_coro w) (awaited w) (pools w) (next_pool w)
    (tasks w) (next_task w) (ready w) (f (BACKGROUND_TASKS w)) (trace w).
Definition set_trace (f : list event → list event) (w : world) :=
  World (running_loop w) (loop_thread w) (live_threads w) (next_thread w)
    (next_loop w) (next_coro w) (awaited w) (pools w) (next_pool w)
    (tasks w) (next_task w) (ready w) (BACKGROUND_TASKS w) (f (trace w)).

Definition log (e : event) : world → world := set_trace (λ tr, tr ++ [e]).

(** The state of a fresh interpreter: the main thread 0 is alive, nothing
    else exists. *)
Definition initial_world : world :=
  World ∅ ∅ {[0]} 1 0 0 ∅ ∅ 0 ∅ 0 [] ∅ [].

(** ** The monad of Python code

    A computation reads the thread it runs on, transforms the world, and
    ends in an [outcome]. *)

Definition M (A : Type) : Type := nat → world → outcome A * world.

Definition ret {A} (a : A) : M A := λ _ w, (Return a, w).

Definition bind {A B} (m : M A) (k : A → M B) : M B :=
  λ t w,
    match m t w with
    | (Return a, w') => k a t w'
    | (Raise e, w') => (Raise e, w')
    | (Diverge, w') => (Diverge, w')
    end.

Definition raise {A} (e : exn) : M A := λ _ w, (Raise e, w).

#[global] Instance M_ret : MRet M := @ret.
#[global] Instance M_bind : MBind M := λ A B k m, bind m k.

(** [try: m  except cls as e: h e] *)
Definition try_except {A} (m : M A) (cls : exc_class) (h : exn → M A) : M A :=
  λ t w,
    match m t w with
    | (Raise e, w') => if isinstance e cls then h e t w' else (Raise e, w')
    | r => r
    end.

Definition result_of {A} (r : outcome A * world) : outcome A := fst r.
Definition world_of {A} (r : outcome A * world) : world := snd r.

(** ** Host primitives: event loops

    These are the operations of [asyncio] and [concurrent.futures] the
    module calls.  They are not part of the repository; each definition
    states the documented behaviour of the primitive on the [world]. *)

Definition no_running_loop : exn := Exn RuntimeError "no running event loop".
Definition run_in_running_loop : exn :=
  Exn RuntimeError "asyncio.run() cannot be called from a running event loop".
Definition reused_coroutine : exn :=
  Exn RuntimeError "cannot reuse already awaited coroutine".

(** [asyncio.get_running_loop()]: the loop running on the current thread,
    [RuntimeError] when there is none. *)
Definition get_running_loop : M nat :=
  λ t w,
    match running_loop w !! t with
    | Some l => (Return l, w)
    | None => (Raise no_running_loop, w)
    end.

(** [asyncio.get_event_loop()] as seen from a coroutine body: the running
    loop of the current thread. *)
Definition get_event_loop : M nat := get_running_loop.

(** [loop.is_running()]: whether the loop has an owning thread. *)
Definition is_running (l : nat) : M bool :=
  λ _ w, (Return (bool_decide (is_Some (loop_thread w !! l))), w).

(** Awaiting a coroutine object on the loop of the current thread: its
    body runs here, once; a second attempt raises. *)
Definition await_coro (c : coroutine) : M pyval :=
  λ t w,
    if bool_decide (co_id c ∈ awaited w) then (Raise reused_coroutine, w)
    else (co_body c,
          log (EvDrive t (co_id c)) (set_awaited (union {[co_id c]}) w)).

Definition start_loop (t l : nat) (w : world) : world :=
  log (EvLoopStart t l)
    (set_loop_thread <[l:=t]> (set_running_loop <[t:=l]> (set_next_loop S w))).

Definition stop_loop (t l : nat) (w : world) : world :=
  log (EvLoopStop t l)
    (set_loop_thread (delete l) (set_running_loop (delete t) w)).

(** [asyncio.run(main)]: refuses to run under a running loop; otherwise
    creates a new loop on the current thread, drives [main] to completion,
    and closes the loop whether [main] returned or raised. *)
Definition asyncio_run (main : coroutine) : M pyval :=
  λ t w,
    match running_loop w !! t with
    | Some _ => (Raise run_in_running_loop, w)
    | None =>
        let l := next_loop w in
        match await_coro main t (start_loop t l w) with
        | (Diverge, w') => (Diverge, w')
        | (r, w') => (r, stop_loop t l w')
        end
    end.

(** ** Host primitives: thread pools *)

(** [ThreadPoolExecutor()]: a new pool without threads. *)
Definition ThreadPoolExecutor : M nat :=
  λ _ w,
    (Return (next_pool w),
     set_pools <[next_pool w := []]> (set_next_pool S w)).

Definition spawn_thread (wk : nat) (w : world) : world :=
  log (EvSpawn wk) (set_live_threads (union {[wk]}) (set_next_thread S w)).

(** [executor.submit(fn, *args)] on a pool with no idle worker: a new
    worker thread is started and runs the work item.  The future handed
    back holds the way the item ends; the effects of the worker on the
    world are sequenced here, since the only caller blocks on the future
    right away. *)
Definition submit (executor : nat) (work : M pyval) : M (outcome pyval) :=
  λ _ w,
    let wk := next_thread w in
    let w1 := set_pools (alter (λ ts, ts ++ [wk]) executor) (spawn_thread wk w) in
    let r := work wk w1 in
    (Return (result_of r), world_of r).

(** [future.result()]: blocks until the work item is over, then returns
    its value or re-raises its exception. *)
Definition future_result (future : outcome pyval) : M pyval :=
  λ _ w, (future, w).

Definition join_thread (w : world) (wk : nat) : world :=
  log (EvJoin wk) (set_live_threads (λ s, s ∖ {[wk]}) w).

(** [executor.shutdown(wait=True)]: joins every worker of the pool. *)
Definition shutdown (executor : nat) : M unit :=
  λ _ w,
    (Return tt,
     foldl join_thread (set_pools (delete executor) w)
       (default [] (pools w !! executor))).

(** [with ThreadPoolExecutor() as executor: body]: the pool is shut down
    on every exit of the body, and exceptions pass through. *)
Definition with_ThreadPoolExecutor {A} (body : nat → M A) : M A :=
  λ t w,
    match ThreadPoolExecutor t w with
    | (Return executor, w1) =>
        match body executor t w1 with
        | (Diverge, w2) => (Diverge, w2)
        | (r, w2) => (r, world_of (shutdown executor t w2))
        end
    | (Raise e, w1) => (Raise e, w1)
    | (Diverge, w1) => (Diverge, w1)
    end.

(** [loop.run_in_executor(None, f)] followed by [await]: [f] runs on a
    worker of the loop's default pool, and the awaiting coroutine resumes
    with the value [f] returned or the exception it raised. *)
Definition run_in_executor (loop : nat) (f : unit → outcome pyval) : M pyval :=
  λ _ w,
    let wk := next_thread w in
    (f tt, log (EvCall wk) (spawn_thread wk w)).

(** [functools.partial(func, *args)] *)
Definition partial (func : pyfunc) (args : list pyval) : unit → outcome pyval :=
  λ _, func args.

(** ** Host primitives: tasks *)

(** [asyncio.create_task(coro)]: needs the running loop of the current
    thread; the new task starts out pending. *)
Definition new_task (coro : coroutine) (loop : nat) : M nat :=
  λ _ w,
    (Return (next_task w),
     set_tasks <[next_task w := Task (co_id coro) loop Pending []]>
       (set_next_task S w)).

Definition asyncio_create_task (coro : coroutine) : M nat :=
  loop ← get_running_loop;
  new_task coro loop.

(** [task.add_done_callback(cb)]: stored on a pending task, scheduled with
    [call_soon] on a task that is already over. *)
Definition add_done_callback (h : nat) (cb : callback) : M unit :=
  λ _ w,
    match tasks w !! h with
    | Some tk =>
        if terminal (task_state tk)
        then (Return tt, set_ready (λ q, q ++ [(cb, h)]) w)
        else (Return tt,
              set_tasks <[h := Task (task_coro tk) (task_loop tk)
                                (task_state tk) (task_callbacks tk ++ [cb])]> w)
    | None => (Return tt, w)
    end.

(** The loop brings a pending task to a terminal state: the state is
    recorded and every done-callback is handed to [call_soon]. *)
Definition finish_task (h : nat) (s : task_status) (w : world) : world :=
  match tasks w !! h with
  | Some tk =>
      set_ready (λ q, q ++ map (λ cb, (cb, h)) (task_callbacks tk))
        (set_tasks <[h := Task (task_coro tk) (task_loop tk) s []]> w)
  | None => w
  end.

(** [set.add] and [set.discard] on the module-level set. *)
Definition BACKGROUND_TASKS_add (h : nat) : M unit :=
  λ _ w, (Return tt, set_BACKGROUND_TASKS (union {[h]}) w).

Definition BACKGROUND_TASKS_discard (h : nat) (w : world) : world :=
  set_BACKGROUND_TASKS (λ s, s ∖ {[h]}) w.

(** The loop calls a scheduled callback with its task. *)
Definition run_callback (cb : callback) (h : nat) (w : world) : world :=
  match cb with
  | CbDiscard => BACKGROUND_TASKS_discard h w
  | CbOther _ => w
  end.

(** ** The module: [create_task], [run_async], [run_sync] *)

Definition create_task (coro : coroutine) : M nat :=
  task ← asyncio_create_task coro;
  _ ← BACKGROUND_TASKS_add task;
  _ ← add_done_callback task CbDiscard;
  mret task.

(** [run_async(func, *args)] is a coroutine function; this is the body
    that runs when the coroutine it returns is awaited. *)
Definition run_async (func : pyfunc) (args : list pyval) : M pyval :=
  let wrapper (loop : nat) : M pyval :=
    try_except (run_in_executor loop (partial func args))
      Exception (λ e, raise e) in
  loop ← get_event_loop;
  wrapper loop.

Definition run_sync_try (coro : coroutine) : M pyval :=
  loop ← get_running_loop;
  running ← is_running loop;
  if running : bool then
    with_ThreadPoolExecutor (λ executor,
      future ← submit executor (asyncio_run coro);
      future_result future)
  else asyncio_run coro.

Definition run_sync (coro : coroutine) : M pyval :=
  try_except (run_sync_try coro) RuntimeError (λ _, asyncio_run coro).

(** ** The module: [expose_sync_method] and [ExposeSyncMethodsMixin] *)

(** A coroutine function object with the two attributes the decorator
    attaches.  [_sync_wrapper] is a closure over the function object; it
    is represented by the coroutine function it calls. *)
Record async_def := AsyncDef {
  am_call : async_fn;
  am_sync_wrapper : option async_fn;
  am_sync_name : option string
}.

(** What a class namespace can hold. *)
Inductive attr :=
| AData (v : pyval)              (* a value that is not callable *)
| AFunc (f : pyfunc)             (* a plain blocking method *)
| AAsync (m : async_def)         (* an [async def] method *)
| AWrapper (f : async_fn).       (* a [sync_wrapper] closure over [f] *)

(** [cls.__dict__]: insertion-ordered, one entry per name. *)
Definition namespace := list (string * attr).

Fixpoint getattr (d : namespace) (k : string) : option attr :=
  match d with
  | [] => None
  | (k', a) :: d' => if decide (k' = k) then Some a else getattr d' k
  end.

(** [setattr(cls, k, a)]: replaces the entry in place, or appends. *)
Fixpoint setattr (d : namespace) (k : string) (a : attr) : namespace :=
  match d with
  | [] => [(k, a)]
  | (k', a') :: d' =>
      if decide (k' = k) then (k, a) :: d' else (k', a') :: setattr d' k a
  end.

Definition callable (a : attr) : bool :=
  match a with AData _ => false | _ => true end.

(** [method._sync_name], when the attribute exists. *)
Definition _sync_name (a : attr) : option string :=
  match a with AAsync m => am_sync_name m | _ => None end.

Definition _sync_wrapper (a : attr) : option attr :=
  match a with AAsync m => AWrapper <$> am_sync_wrapper m | _ => None end.

Definition hasattr_sync_name (a : attr) : bool :=
  bool_decide (is_Some (_sync_name a)).

(** Calling a coroutine function creates a new coroutine object. *)
Definition call_async (f : async_fn) (args : list pyval) : M coroutine :=
  λ _ w, (Return (Coroutine (next_coro w) (f args)), set_next_coro S w).

(** The closure built by the decorator. *)
Definition sync_wrapper (async_method : async_fn) (args : list pyval)
    : M pyval :=
  coro ← call_async async_method args;
  run_sync coro.

(** [expose_sync_method(name)(async_method)]: the same function object
    comes back, carrying the wrapper and the name. *)
Definition expose_sync_method (name : string) (async_method : async_def)
    : async_def :=
  AsyncDef (am_call async_method)
              (Some (am_call async_method))
              (Some name).

(** One iteration of the loop of [__init_subclass__]. *)
Definition install (cls : outcome namespace) (method : attr)
    : outcome namespace :=
  match cls with
  | Return d =>
      if callable method && hasattr_sync_name method then
        match _sync_name method, _sync_wrapper method with
        | Some sync_method_name, Some wr =>
            Return (setattr d sync_method_name wr)
        | _, _ => Raise (Exn AttributeError "_sync_wrapper")
        end
      else Return d
  | other => other
  end.

(** [ExposeSyncMethodsMixin.__init_subclass__(cls)], on the namespace of
    the class being created; the loop runs over a snapshot of the values. *)
Definition __init_subclass__ (cls : namespace) : outcome namespace :=
  foldl install (Return cls) (map snd cls).

(** The result of a call is a plain value or a coroutine object. *)
Inductive pyobj :=
| OVal (v : pyval)
| OCoro (c : coroutine).

Definition not_callable : exn := Exn TypeError "object is not callable".
Definition not_awaitable : exn :=
  Exn TypeError "object can't be used in 'await' expression".
Definition no_attribute : exn := Exn AttributeError "no such attribute".

Definition call_attr (a : attr) (args : list pyval) : M pyobj :=
  match a with
  | AData _ => raise not_callable
  | AFunc f =>
      λ _ w,
        (match f args with
         | Return v => Return (OVal v)
         | Raise e => Raise e
         | Diverge => Diverge
         end, w)
  | AAsync m => c ← call_async (am_call m) args; mret (OCoro c)
  | AWrapper f => v ← sync_wrapper f args; mret (OVal v)
  end.

(** [instance.name(x, ...)] for an instance [self] of a class with
    namespace [cls]: the attribute is found on the class and called with
    the instance bound as first argument. *)
Definition call_method (cls : namespace) (name : string) (self : pyval)
    (args : list pyval) : M pyobj :=
  match getattr cls name with
  | Some a => call_attr a (self :: args)
  | None => raise no_attribute
  end.

(** [await obj] *)
Definition await (o : pyobj) : M pyval :=
  match o with
  | OCoro c => await_coro c
  | OVal _ => raise not_awaitable
  end.

(** ** Well-formed worlds

    What the host guarantees about its own bookkeeping: the loop stored
    as "running" for a thread is a loop owned by that thread; thread,
    loop and coroutine identifiers in use are below the allocation
    counters. *)

Record wf (w : world) : Prop := WF {
  wf_running :
    map_Forall (λ t l, loop_thread w !! l = Some t) (running_loop w);
  wf_loops : map_Forall (λ l _, l < next_loop w) (loop_thread w);
  wf_live : set_Forall (λ t, t < next_thread w) (live_threads w);
  wf_sched : map_Forall (λ t _, t ∈ live_threads w) (running_loop w);
  wf_awaited : set_Forall (λ c, c < next_coro w) (awaited w)
}.

(** The world of the tests below: the main thread runs an event loop. *)
Definition scheduled_world : world :=
  start_loop 0 (next_loop initial_world) initial_world.

(** ** Vocabulary for the statements *)

(** What awaiting [coro] yields in world [w]. *)
Definition await_outcome (coro : coroutine) (w : world) : outcome pyval :=
  if bool_decide (co_id coro ∈ awaited w) then Raise reused_coroutine
  else co_body coro.

Definition drive_events (t : nat) (coro : coroutine) (w : world) : list event :=
  if bool_decide (co_id coro ∈ awaited w) then [] else [EvDrive t (co_id coro)].

(** The events of one [asyncio.run(coro)] on thread [t]. *)
Definition loop_events (t : nat) (coro : coroutine) (w : world) : list event :=
  EvLoopStart t (next_loop w) :: drive_events t coro w ++
  match await_outcome coro w with
  | Diverge => []
  | _ => [EvLoopStop t (next_loop w)]
  end.

(** The events of the isolated-thread path of [run_sync] after the worker
    [wk] was started. *)
Definition isolated_events (wk : nat) (coro : coroutine) (w : world)
    : list event :=
  loop_events wk coro w ++
  match await_outcome coro w with Diverge => [] | _ => [EvJoin wk] end.

(** What the caller of [run_sync] sees on the isolated-thread path when
    the worker ended with [o]. *)
Definition isolated_outcome (o : outcome pyval) : outcome pyval :=
  match o with
  | Raise e =>
      if isinstance e RuntimeError then Raise run_in_running_loop else Raise e
  | other => other
  end.

(** [run_sync] with an arbitrary computation in place of the [else] arm
    of its conditional. *)
Definition run_sync_with_else (else_arm : M pyval) (coro : coroutine)
    : M pyval :=
  try_except
    (loop ← get_running_loop;
     running ← is_running loop;
     if running : bool then
       with_ThreadPoolExecutor (λ executor,
         future ← submit executor (asyncio_run coro);
         future_result future)
     else else_arm)
    RuntimeError (λ _, asyncio_run coro).

(** ** The life of the task registry

    The part of the world the registry depends on, and the ways it can
    change: a submission through [create_task], the loop bringing a
    pending task to a terminal state (whichever), the loop calling one of
    the scheduled callbacks, and any other activity that leaves tasks,
    callbacks and the registry alone. *)

Definition registry_view (w : world) :=
  (tasks w, next_task w, ready w, BACKGROUND_TASKS w).

Inductive registry_step : world → world → Prop :=
| step_submit coro t w h w' :
    create_task coro t w = (Return h, w') → registry_step w w'
| step_terminal h tk s w :
    tasks w !! h = Some tk → task_state tk = Pending → terminal s = true →
    registry_step w (finish_task h s w)
| step_callback q1 cb h q2 w :
    ready w = q1 ++ (cb, h) :: q2 →
    registry_step w (run_callback cb h (set_ready (λ _, q1 ++ q2) w))
| step_other w w' :
    registry_view w' = registry_view w → registry_step w w'.

Definition reachable (w : world) : Prop := rtc registry_step initial_world w.

(** A registered task is pending with the discard callback attached, or
    terminal with the discard callback waiting in the loop's queue. *)
Definition registered_ok (w : world) (h : nat) : Prop :=
  ∃ tk, tasks w !! h = Some tk ∧
    if terminal (task_state tk) then (CbDiscard, h) ∈ ready w
    else CbDiscard ∈ task_callbacks tk.

Definition registry_inv (w : world) : Prop :=
  set_Forall (registered_ok w) (BACKGROUND_TASKS w)
  ∧ map_Forall (λ h _, h < next_task w) (tasks w).

(** The part of the world [wf] speaks about. *)
Definition scheduler_view (w : world) :=
  (running_loop w, loop_thread w, live_threads w,
   next_thread w, next_loop w, next_coro w, awaited w).

(** ** Calling methods: the two call sites compared by the statements *)



(** [await instance.name(x, ...)] in scheduled code. *)
Definition normal_call (cls : namespace) (name : string) (self : pyval)
    (args : list pyval) : M pyval :=
  o ← call_method cls name self args;
  await o.

(** An [async def] without decoration. *)
Definition plain (f : async_fn) : async_def := AsyncDef f None None.

(** The namespace of a class after [__init_subclass__] has run. *)
Definition class_of (body : namespace) : namespace :=
  match __init_subclass__ body with
  | Return cls => cls
  | _ => body
  end.

(** Concrete units of work used in the examples. *)
Definition boom : exn := Exn RuntimeError "boom".
Definition value_boom : exn := Exn ValueError "boom".
Definition returns_7 : coroutine := Coroutine 0 (Return (VInt 7)).
Definition raises_boom : coroutine := Coroutine 0 (Raise boom).

(** [async def foo_async(self, x): return x + 1] *)
Definition foo_async : async_fn :=
  λ args,
    match args with
    | [_; VInt x] => Return (VInt (x + 1))
    | _ => Raise (Exn TypeError "foo_async() takes self and an integer")
    end.


(** The class of the docstring: one method, one twin. *)
Definition MyClass_body : namespace :=
  [("foo_async", AAsync (expose_sync_method "foo" (plain foo_async)))].


(** A twin declared under the name of the method itself. *)
Definition Clash_body : namespace :=
  [("foo_async", AAsync (expose_sync_method "foo_async" (plain foo_async)))].



(** ** Further vocabulary and examples *)





(** A class body without declarations, and one with data next to a
    declaration. *)
Definition Plain_body : namespace :=
  [("limit", AData (VInt 3));
   ("foo_async", AAsync (plain foo_async));
   ("helper", AFunc (λ _, Return VNone))].

Definition Mixed_body : namespace :=
  [("limit", AData (VInt 3));
   ("foo_async", AAsync (expose_sync_method "foo" (plain foo_async)))].

(** * Properties *)

Ltac solve_trace :=
  rewrite ?app_nil_r; rewrite <- ?app_assoc; cbn;
  rewrite <- ?app_assoc; cbn; rewrite ?app_nil_r; done.

Lemma remove_added (s : gset nat) (x : nat) :
  x ∉ s → ({[x]} ∪ s) ∖ {[x]} = s.
Proof.
  intros Hx. apply set_eq. intros y.
  rewrite elem_of_difference, elem_of_union, !elem_of_singleton.
  split; [intros [[->|Hy] Hne]; done | intros Hy; split; [by right|]].
  by intros ->.
Qed.

Lemma wf_initial : wf initial_world.
Proof. split; compute_done. Qed.

Lemma wf_scheduled : wf scheduled_world.
Proof. split; compute_done. Qed.

(** ** [asyncio.run] *)


Lemma asyncio_run_inline coro t w :
  running_loop w !! t = None →
  result_of (asyncio_run coro t w) = await_outcome coro w
  ∧ trace (world_of (asyncio_run coro t w)) = trace w ++ loop_events t coro w
  ∧ live_threads (world_of (asyncio_run coro t w)) = live_threads w
  ∧ pools (world_of (asyncio_run coro t w)) = pools w
  ∧ (∀ t', t' ≠ t →
       running_loop (world_of (asyncio_run coro t w)) !! t'
       = running_loop w !! t').
Proof.
  intros Hno.
  unfold asyncio_run, await_coro, loop_events, drive_events, await_outcome.
  rewrite Hno. cbn.
  case_bool_decide; cbn.
  - repeat split; try done.
    + solve_trace.
    + intros t' Hne. by rewrite lookup_delete_ne, lookup_insert_ne.
  - destruct (co_body coro); cbn; repeat split; try done; try solve_trace;
      intros t' Hne; by rewrite ?lookup_delete_ne, lookup_insert_ne.
Qed.

Lemma asyncio_run_refused coro t w l :
  running_loop w !! t = Some l →
  asyncio_run coro t w = (Raise run_in_running_loop, w).
Proof. intros H. unfold asyncio_run. by rewrite H. Qed.

(** ** [run_sync]: the two paths *)

Lemma run_sync_no_loop coro t w :
  running_loop w !! t = None → run_sync coro t w = asyncio_run coro t w.
Proof.
  intros H. unfold run_sync, try_except, run_sync_try, mbind, M_bind, bind, get_running_loop.
  rewrite H. reflexivity.
Qed.

Lemma fresh_thread_idle w : wf w → running_loop w !! next_thread w = None.
Proof.
  intros Hwf. destruct (running_loop w !! next_thread w) as [l|] eqn:E; [|done].
  pose proof (wf_sched _ Hwf _ _ E) as Hin. cbn in Hin.
  pose proof (wf_live _ Hwf _ Hin) as Hlt. cbn in Hlt. lia.
Qed.

Lemma fresh_thread_not_live w : wf w → next_thread w ∉ live_threads w.
Proof.
  intros Hwf Hin. pose proof (wf_live _ Hwf _ Hin) as Hlt. cbn in Hlt. lia.
Qed.

Lemma scheduled_thread_old w t l :
  wf w → running_loop w !! t = Some l → t ≠ next_thread w.
Proof. intros Hwf H ->. by rewrite fresh_thread_idle in H. Qed.

Lemma run_sync_isolated coro t w l :
  wf w → running_loop w !! t = Some l →
  let wk := next_thread w in
  let r := run_sync coro t w in
  result_of r = isolated_outcome (await_outcome coro w)
  ∧ trace (world_of r) = trace w ++ EvSpawn wk :: isolated_events wk coro w
  ∧ live_threads (world_of r) =
      match await_outcome coro w with
      | Diverge => {[wk]} ∪ live_threads w
      | _ => live_threads w
      end.
Proof.
  intros Hwf H wk r. subst r wk. set (wk := next_thread w).
  unfold run_sync, try_except, run_sync_try, mbind, M_bind, bind, get_running_loop, is_running.
  rewrite H.
  pose proof (wf_running _ Hwf t l H) as Hl. cbn in Hl. rewrite Hl.
  rewrite bool_decide_eq_true_2 by eauto.
  unfold with_ThreadPoolExecutor, ThreadPoolExecutor, submit, future_result,
    mbind, M_bind, bind.
  cbn. fold wk.
  set (w1 := set_pools _ (spawn_thread _ _)).
  assert (Hidle : running_loop w1 !! wk = None)
    by (subst w1 wk; cbn; by apply fresh_thread_idle).
  destruct (asyncio_run_inline coro wk w1 Hidle)
    as (Hr & Htr & Hlive & Hpools & Hrl).
  assert (Hne : t ≠ wk) by (by eapply scheduled_thread_old).
  assert (Hfresh : wk ∉ live_threads w) by (by apply fresh_thread_not_live).
  change (await_outcome coro w1) with (await_outcome coro w) in Hr.
  change (loop_events wk coro w1) with (loop_events wk coro w) in Htr.
  destruct (asyncio_run coro wk w1) as [o w2]. cbn in *.
  assert (Hp : pools w2 !! next_pool w = Some [wk]).
  { rewrite Hpools. subst w1. cbn. by rewrite lookup_alter_eq, lookup_insert_eq. }
  subst o. unfold isolated_events, loop_events in Htr |- *.
  destruct (await_outcome coro w) as [v|e|] eqn:Eo; cbn.
  - rewrite Hp. cbn. rewrite Htr, Hlive. subst w1; cbn.
    repeat split; [solve_trace | by apply remove_added].
  - rewrite Hp. cbn. destruct (isinstance e RuntimeError) eqn:Ei.
    + erewrite asyncio_run_refused; cbn.
      * rewrite Htr, Hlive. subst w1; cbn.
        repeat split; [solve_trace | by apply remove_added].
      * rewrite Hrl by done. subst w1. cbn. done.
    + cbn. rewrite Htr, Hlive. subst w1; cbn.
      repeat split; [solve_trace | by apply remove_added].
  - rewrite Htr, Hlive. subst w1; cbn. repeat split. solve_trace.
Qed.

Lemma loop_events_thread t coro w :
  Forall (λ e, event_thread e = t) (loop_events t coro w).
Proof.
  unfold loop_events, drive_events.
  apply Forall_cons; split; [done|]. apply Forall_app; split.
  - case_bool_decide; repeat constructor.
  - destruct (await_outcome coro w); repeat constructor.
Qed.

Lemma isolated_events_thread wk coro w :
  Forall (λ e, event_thread e = wk) (isolated_events wk coro w).
Proof.
  unfold isolated_events. apply Forall_app; split.
  - apply loop_events_thread.
  - destruct (await_outcome coro w); repeat constructor.
Qed.

Lemma isolated_outcome_diverge o :
  isolated_outcome o = Diverge ↔ o = Diverge.
Proof.
  destruct o as [v|e|]; cbn; [done| |done].
  by destruct (isinstance e RuntimeError).
Qed.

(** C1. A call to [run_sync] from a thread that already runs an event
    loop never drives the unit of work on that thread: a worker thread
    that did not exist before is started, every event of the call (loop
    start, driving the coroutine, loop stop, join) happens on that worker,
    the caller gets the worker's value (and hangs exactly when the worker
    does), and when the call comes back the worker has been joined and
    the set of live threads is what it was. *)
Theorem run_sync_reentrant_uses_isolated_thread coro t w l :
  wf w → running_loop w !! t = Some l →
  let wk := next_thread w in
  let r := run_sync coro t w in
  wk ≠ t ∧ (wk ∉ live_threads w)
  ∧ (∃ evs, trace (world_of r) = trace w ++ EvSpawn wk :: evs
      ∧ Forall (λ e, event_thread e ≠ t) evs
      ∧ (co_id coro ∉ awaited w → EvDrive wk (co_id coro) ∈ evs)
      ∧ (result_of r ≠ Diverge → last evs = Some (EvJoin wk)))
  ∧ (result_of r = Diverge ↔ await_outcome coro w = Diverge)
  ∧ (∀ v, await_outcome coro w = Return v → result_of r = Return v)
  ∧ (result_of r ≠ Diverge → live_threads (world_of r) = live_threads w).
Proof.
  intros Hwf H wk r.
  destruct (run_sync_isolated coro t w l Hwf H) as (Hr & Htr & Hlive).
  fold wk r in Hr, Htr, Hlive.
  assert (Hne : wk ≠ t) by (symmetry; by eapply scheduled_thread_old).
  assert (Hdiv : result_of r = Diverge ↔ await_outcome coro w = Diverge)
    by (rewrite Hr; apply isolated_outcome_diverge).
  split; [done|]. split; [by apply fresh_thread_not_live|].
  split; [|split; [done|split]].
  - exists (isolated_events wk coro w). split; [exact Htr|]. split; [|split].
    + eapply Forall_impl; [apply isolated_events_thread|].
      intros e He. cbn in He. by rewrite He.
    + intros Hfresh. unfold isolated_events, loop_events, drive_events.
      rewrite bool_decide_eq_false_2 by done. cbn.
      apply list_elem_of_further, list_elem_of_here.
    + intros Hnd. unfold isolated_events.
      destruct (await_outcome coro w) eqn:Eo;
        first [by rewrite last_snoc | exfalso; by apply Hnd, Hdiv].
  - intros v Hv. by rewrite Hr, Hv.
  - intros Hnd. rewrite Hlive. destruct (await_outcome coro w); [done..|].
    exfalso. by apply Hnd, Hdiv.
Qed.

Lemma run_sync_reentrant_uses_isolated_thread_witness :
  let r := run_sync returns_7 0 scheduled_world in
  result_of r = Return (VInt 7)
  ∧ trace (world_of r) =
      trace scheduled_world ++
      [EvSpawn 1; EvLoopStart 1 1; EvDrive 1 0; EvLoopStop 1 1; EvJoin 1]
  ∧ live_threads (world_of r) = live_threads scheduled_world.
Proof.
  pose proof (run_sync_reentrant_uses_isolated_thread returns_7 0
                scheduled_world 0 wf_scheduled eq_refl) as H.
  cbv zeta in H. destruct H as (_ & _ & _ & _ & Hv & Hl).
  split; [apply Hv; reflexivity|]. split; [reflexivity|].
  apply Hl. discriminate.
Defined.



(** X5. [run_sync] re-raises the error of the unit of work unchanged when
    no event loop runs on the calling thread, and on the isolated-thread
    path when the error is not an instance of [RuntimeError]. *)
Lemma run_sync_propagates_error coro t w e :
  wf w →
  running_loop w !! t = None ∨ isinstance e RuntimeError = false →
  await_outcome coro w = Raise e →
  result_of (run_sync coro t w) = Raise e.
Proof.
  intros Hwf Hsite He. destruct (running_loop w !! t) as [l|] eqn:Hl.
  - destruct (run_sync_isolated coro t w l Hwf Hl) as (-> & _).
    rewrite He. cbn. destruct Hsite as [Hno | ->]; [congruence | done].
  - rewrite run_sync_no_loop by done.
    destruct (asyncio_run_inline coro t w Hl) as (-> & _). done.
Qed.

(** On the isolated-thread path an error of the [RuntimeError] family is
    caught by the handler of [run_sync]. *)
Lemma run_sync_masks_RuntimeError coro t w l e :
  wf w → running_loop w !! t = Some l →
  await_outcome coro w = Raise e → isinstance e RuntimeError = true →
  result_of (run_sync coro t w) = Raise run_in_running_loop.
Proof.
  intros Hwf Hl He Hk.
  destruct (run_sync_isolated coro t w l Hwf Hl) as (-> & _).
  rewrite He. cbn. by rewrite Hk.
Qed.

(** C3, at the failing input.  Inside a running event loop, a unit of work
    that raises [RuntimeError("boom")] makes [run_sync] raise a different
    [RuntimeError], the one of [asyncio.run] refusing to start under a
    running loop: the handler meant for the detection step also catches
    the error that comes back from the worker.  Without a running loop
    the same unit of work gets its own error through. *)
Theorem run_sync_reentrant_masks_RuntimeError :
  wf scheduled_world
  ∧ running_loop scheduled_world !! 0 = Some 0
  ∧ await_outcome raises_boom scheduled_world = Raise boom
  ∧ result_of (run_sync raises_boom 0 scheduled_world)
    = Raise run_in_running_loop
  ∧ run_in_running_loop ≠ boom
  ∧ result_of (run_sync raises_boom 0 initial_world) = Raise boom.
Proof. split; [exact wf_scheduled|]. by repeat split. Qed.

(** C4. When the detection step [get_running_loop] raises, [run_sync]
    does not raise that error: it is [asyncio.run] on the current thread,
    a new loop is started there, the coroutine is driven on it, and the
    result of the call is the result of the coroutine. *)
Theorem run_sync_detection_error_falls_back coro t w e w' :
  get_running_loop t w = (Raise e, w') →
  let r := run_sync coro t w in
  r = asyncio_run coro t w
  ∧ result_of r = await_outcome coro w
  ∧ trace (world_of r) = trace w ++ loop_events t coro w
  ∧ Forall (λ ev, event_thread ev = t) (loop_events t coro w)
  ∧ (co_id coro ∉ awaited w → EvDrive t (co_id coro) ∈ loop_events t coro w).
Proof.
  intros Hdet r. subst r. unfold get_running_loop in Hdet.
  destruct (running_loop w !! t) as [l|] eqn:Hno; [done|].
  rewrite run_sync_no_loop by done.
  destruct (asyncio_run_inline coro t w Hno) as (Hr & Htr & _).
  repeat split; try done.
  - apply loop_events_thread.
  - intros Hfresh. unfold loop_events, drive_events.
    rewrite bool_decide_eq_false_2 by done. cbn.
    apply list_elem_of_further, list_elem_of_here.
Qed.

Lemma run_sync_detection_error_falls_back_witness :
  result_of (run_sync returns_7 0 initial_world) = Return (VInt 7)
  ∧ trace (world_of (run_sync returns_7 0 initial_world))
    = [EvLoopStart 0 0; EvDrive 0 0; EvLoopStop 0 0].
Proof.
  destruct (run_sync_detection_error_falls_back returns_7 0 initial_world
              no_running_loop initial_world eq_refl) as (_ & Hr & Htr & _).
  split; [exact Hr | exact Htr].
Defined.



(** [run_sync] is [run_sync_with_else] with the source's [else] arm. *)
Lemma run_sync_with_else_source coro :
  run_sync_with_else (asyncio_run coro) coro = run_sync coro.
Proof. reflexivity. Qed.



(** ** [create_task] and the registry *)

Lemma create_task_inv coro t w h w' :
  create_task coro t w = (Return h, w') →
  ∃ l, running_loop w !! t = Some l ∧ h = next_task w
  ∧ tasks w' = <[h := Task (co_id coro) l Pending [CbDiscard]]> (tasks w)
  ∧ next_task w' = S (next_task w)
  ∧ ready w' = ready w
  ∧ BACKGROUND_TASKS w' = {[h]} ∪ BACKGROUND_TASKS w.
Proof.
  unfold create_task, asyncio_create_task, new_task, BACKGROUND_TASKS_add,
    add_done_callback, get_running_loop, mbind, M_bind, bind, mret, M_ret, ret.
  destruct (running_loop w !! t) as [l|]; [|done].
  cbn. rewrite lookup_insert_eq. cbn. intros [= <- <-]. exists l. cbn.
  by rewrite insert_insert_eq.
Qed.

Lemma registry_inv_initial : registry_inv initial_world.
Proof.
  split; [apply set_Forall_empty | apply map_Forall_empty].
Qed.

Lemma registry_inv_step w w' :
  registry_inv w → registry_step w w' → registry_inv w'.
Proof.
  intros [Hreg Hfresh] Hstep. destruct Hstep as
    [coro t w h w' Hc | h tk s w Hh Hp Hs | q1 cb h q2 w Hq | w w' Hv].
  - apply create_task_inv in Hc as (l & _ & -> & Htk & Hnt & Hrd & Hbt).
    assert (Hnew : tasks w !! next_task w = None).
    { destruct (tasks w !! next_task w) eqn:E; [|done].
      apply Hfresh in E. cbn in E. lia. }
    split.
    + rewrite Hbt. intros h Hin. unfold registered_ok. rewrite Htk, Hrd.
      apply elem_of_union in Hin as [Hin|Hin].
      * apply elem_of_singleton in Hin as ->. rewrite lookup_insert_eq.
        eexists. split; [done|]. cbn. apply list_elem_of_here.
      * destruct (Hreg h Hin) as (tk & Hh & Hok).
        exists tk. rewrite lookup_insert_ne; [done|].
        by intros <-; rewrite Hnew in Hh.
    + rewrite Htk, Hnt. apply map_Forall_insert_2; [lia|].
      eapply map_Forall_impl; [exact Hfresh|]. cbn. lia.
  - unfold finish_task. rewrite Hh. split; cbn.
    + intros h' Hin. destruct (Hreg h' Hin) as (tk' & Hh' & Hok).
      unfold registered_ok. cbn. destruct (decide (h' = h)) as [->|Hne].
      * rewrite lookup_insert_eq. eexists. split; [done|]. cbn. rewrite Hs.
        rewrite Hh in Hh'. injection Hh' as <-. rewrite Hp in Hok. cbn in Hok.
        apply elem_of_app. right. apply list_elem_of_fmap. by exists CbDiscard.
      * rewrite lookup_insert_ne by done. exists tk'. split; [done|].
        destruct (terminal (task_state tk')); [|done].
        apply elem_of_app. by left.
    + apply map_Forall_insert_2; [|done]. by apply Hfresh in Hh.
  - assert (Hkeep : ∀ h', h' ≠ h → (CbDiscard, h') ∈ ready w →
                     (CbDiscard, h') ∈ q1 ++ q2).
    { intros h' Hne. rewrite Hq, !elem_of_app, elem_of_cons.
      intros [?|[[=]|?]]; auto. done. }
    destruct cb as [|n]; cbn; split; cbn; try done.
    + intros h' Hin. apply elem_of_difference in Hin as [Hin Hne].
      rewrite elem_of_singleton in Hne.
      destruct (Hreg h' Hin) as (tk' & Hh' & Hok). exists tk'. split; [done|].
      cbn. destruct (terminal (task_state tk')); [|done]. by apply Hkeep.
    + intros h' Hin. destruct (Hreg h' Hin) as (tk' & Hh' & Hok).
      exists tk'. split; [done|]. cbn.
      destruct (terminal (task_state tk')); [|done].
      rewrite Hq in Hok. rewrite !elem_of_app, elem_of_cons in Hok.
      rewrite elem_of_app. destruct Hok as [?|[[=]|?]]; auto.
  - unfold registry_view in Hv. injection Hv as Ht Hn Hr Hb.
    unfold registry_inv, registered_ok. by rewrite Ht, Hn, Hr, Hb.
Qed.

Lemma registry_inv_steps w w' :
  registry_inv w → rtc registry_step w w' → registry_inv w'.
Proof. intros Hinv Hsteps. induction Hsteps; eauto using registry_inv_step. Qed.

Lemma reachable_inv w : reachable w → registry_inv w.
Proof. apply registry_inv_steps, registry_inv_initial. Qed.

Lemma asyncio_run_view coro t w :
  registry_view (world_of (asyncio_run coro t w)) = registry_view w.
Proof.
  unfold asyncio_run, await_coro.
  destruct (running_loop w !! t); [done|].
  case_bool_decide; [done|]. by destruct (co_body coro).
Qed.

Lemma join_threads_view ts w :
  registry_view (foldl join_thread w ts) = registry_view w.
Proof.
  revert w. induction ts as [|wk ts IH]; intros w; [done|].
  cbn. by rewrite IH.
Qed.

Lemma run_sync_view coro t w :
  registry_view (world_of (run_sync coro t w)) = registry_view w.
Proof.
  unfold run_sync, try_except, run_sync_try, mbind, M_bind, bind,
    get_running_loop, is_running.
  destruct (running_loop w !! t) as [l|]; [|apply asyncio_run_view].
  case_bool_decide.
  - unfold with_ThreadPoolExecutor, ThreadPoolExecutor, submit, future_result,
      shutdown, mbind, M_bind, bind. cbn.
    set (w1 := set_pools _ (spawn_thread _ _)).
    pose proof (asyncio_run_view coro (next_thread w) w1) as Hv.
    change (registry_view w1) with (registry_view w) in Hv.
    destruct (asyncio_run coro (next_thread w) w1) as [[v|e|] w2]; cbn in *.
    + by rewrite join_threads_view.
    + destruct (isinstance e RuntimeError); cbn.
      * rewrite asyncio_run_view. by rewrite join_threads_view.
      * by rewrite join_threads_view.
    + done.
  - pose proof (asyncio_run_view coro t w) as Hv.
    destruct (asyncio_run coro t w) as [[v|e|] w2]; cbn in *; try done.
    destruct (isinstance e RuntimeError); [|done].
    by rewrite asyncio_run_view.
Qed.

Lemma run_async_view func args t w :
  registry_view (world_of (run_async func args t w)) = registry_view w.
Proof.
  unfold run_async, get_event_loop, get_running_loop, try_except,
    run_in_executor, partial, raise, mbind, M_bind, bind.
  destruct (running_loop w !! t); [|done]. cbn.
  destruct (func args) as [v|e|]; try done.
  by destruct (isinstance e Exception).
Qed.

(** The other entry points of the module never touch the registry: they
    are steps of the fourth kind. *)
Lemma run_sync_step coro t w :
  registry_step w (world_of (run_sync coro t w)).
Proof. apply step_other, run_sync_view. Qed.

Lemma run_async_step func args t w :
  registry_step w (world_of (run_async func args t w)).
Proof. apply step_other, run_async_view. Qed.

Lemma reachable_scheduled : reachable scheduled_world.
Proof. apply rtc_once, step_other. reflexivity. Qed.



(** ** Class namespaces and the installation of twins *)


Lemma getattr_setattr_ne d k k' a :
  k ≠ k' → getattr (setattr d k a) k' = getattr d k'.
Proof.
  intros Hne. induction d as [|[k0 a0] d IH]; cbn.
  - by rewrite decide_False.
  - destruct (decide (k0 = k)) as [->|Hne0]; cbn.
    + by rewrite !decide_False.
    + by rewrite IH.
Qed.

Lemma install_return o m d' :
  install o m = Return d' → ∃ d, o = Return d.
Proof. destruct o as [d|e|]; [by exists d|done..]. Qed.

Lemma foldl_install_return o ms d' :
  foldl install o ms = Return d' → ∃ d, o = Return d.
Proof.
  revert o. induction ms as [|m ms IH]; intros o H; cbn in H.
  - by exists d'.
  - apply IH in H as [d H]. by eapply install_return.
Qed.

Lemma install_other d m d' k :
  install (Return d) m = Return d' → _sync_name m ≠ Some k →
  getattr d' k = getattr d k.
Proof.
  unfold install, hasattr_sync_name. intros H Hne.
  destruct (callable m); cbn in H; [|by injection H as <-].
  case_bool_decide; [|by injection H as <-].
  destruct (_sync_name m) as [n|] eqn:En; [|done].
  destruct (_sync_wrapper m) as [wr|]; [|done].
  injection H as <-. apply getattr_setattr_ne. by intros ->.
Qed.

Lemma foldl_install_other ms d d' k :
  foldl install (Return d) ms = Return d' →
  Forall (λ m, _sync_name m ≠ Some k) ms →
  getattr d' k = getattr d k.
Proof.
  revert d. induction ms as [|m ms IH]; intros d H Hall; cbn in H.
  - by injection H as <-.
  - apply Forall_cons in Hall as [Hm Hms].
    destruct (foldl_install_return _ _ _ H) as [d1 Hd1].
    rewrite Hd1 in H. rewrite (IH _ H Hms). by eapply install_other.
Qed.


Lemma wf_set_next_coro w : wf w → wf (set_next_coro S w).
Proof.
  intros [H1 H2 H3 H4 H5]. split; try done.
  intros c Hc. apply H5 in Hc. cbn in *. lia.
Qed.

Lemma fresh_coro_outcome w (f : async_fn) (args : list pyval) :
  wf w →
  await_outcome (Coroutine (next_coro w) (f args)) (set_next_coro S w)
  = f args.
Proof.
  intros Hwf. unfold await_outcome. cbn.
  rewrite bool_decide_eq_false_2; [done|].
  intros Hin. apply (wf_awaited _ Hwf) in Hin. cbn in Hin. lia.
Qed.


(** What the wrapper hands back: the outcome of the coroutine, on the
    inline path always, on the isolated-thread path unless the outcome is
    an error that [except RuntimeError] catches. *)
Lemma sync_wrapper_result (f : async_fn) (args : list pyval) t w :
  wf w →
  running_loop w !! t = None
  ∨ (∀ e, f args = Raise e → isinstance e RuntimeError = false) →
  result_of (sync_wrapper f args t w) = f args.
Proof.
  intros Hwf Hsite. unfold sync_wrapper, call_async, mbind, M_bind, bind.
  set (coro := Coroutine (next_coro w) (f args)).
  set (w1 := set_next_coro S w).
  assert (Hout : await_outcome coro w1 = f args)
    by (by apply fresh_coro_outcome).
  destruct (running_loop w !! t) as [l|] eqn:Hl.
  - destruct (run_sync_isolated coro t w1 l) as (Hr & _).
    { by apply wf_set_next_coro. } { done. }
    rewrite Hr, Hout. destruct Hsite as [?|Hsite]; [done|].
    destruct (f args) as [v|e|] eqn:Ef; cbn; [done| |done].
    by rewrite (Hsite e eq_refl).
  - rewrite run_sync_no_loop by done.
    destruct (asyncio_run_inline coro t w1) as (Hr & _); [done|].
    by rewrite Hr.
Qed.





(** C8, as amended.  The decorator hands the method back with the same
    call behaviour, and when no declaration of the class uses the
    method's own name [k] as twin name, [__init_subclass__] leaves the
    entry [k] of the class alone: [await instance.k(args)] does what it
    does for the undecorated method. *)
Theorem expose_sync_method_keeps_method cls cls' k name m0 :
  getattr cls k = Some (AAsync (expose_sync_method name m0)) →
  Forall (λ ka, _sync_name ka.2 ≠ Some k) cls →
  __init_subclass__ cls = Return cls' →
  am_call (expose_sync_method name m0) = am_call m0
  ∧ getattr cls' k = Some (AAsync (expose_sync_method name m0))
  ∧ ∀ self args t w,
      normal_call cls' k self args t w
      = (o ← call_attr (AAsync m0) (self :: args); await o) t w.
Proof.
  intros Hget Hnames Hinit. unfold __init_subclass__ in Hinit.
  eapply foldl_install_other in Hinit; [|by apply Forall_fmap].
  rewrite Hget in Hinit. split; [done|]. split; [done|].
  intros self args t w. unfold normal_call, call_method. by rewrite Hinit.
Qed.

Lemma expose_sync_method_keeps_method_witness :
  getattr (class_of MyClass_body) "foo_async"
  = Some (AAsync (expose_sync_method "foo" (plain foo_async)))
  ∧ result_of (normal_call (class_of MyClass_body) "foo_async" (VObj 0)
                 [VInt 41] 0 scheduled_world)
    = Return (VInt 42).
Proof.
  destruct (expose_sync_method_keeps_method MyClass_body
              (class_of MyClass_body) "foo_async" "foo" (plain foo_async))
    as (_ & Hg & Hc).
  - reflexivity.
  - repeat constructor. cbn. discriminate.
  - reflexivity.
  - split; [exact Hg|]. rewrite Hc. reflexivity.
Defined.

(** C8 as stated fails: a twin declared under the name of its own method
    takes the place of the method on the class, and
    [await instance.foo_async(41)] then fails with a [TypeError] (the
    wrapper returns 42, which cannot be awaited) where the undecorated
    method gives 42. *)
Lemma twin_named_like_its_method_replaces_it :
  getattr Clash_body "foo_async"
  = Some (AAsync (expose_sync_method "foo_async" (plain foo_async)))
  ∧ __init_subclass__ Clash_body = Return (class_of Clash_body)
  ∧ getattr (class_of Clash_body) "foo_async" = Some (AWrapper foo_async)
  ∧ result_of (normal_call (class_of Clash_body) "foo_async" (VObj 0)
                 [VInt 41] 0 scheduled_world)
    = Raise not_awaitable
  ∧ result_of ((o ← call_attr (AAsync (plain foo_async)) [VObj 0; VInt 41];
                await o) 0 scheduled_world)
    = Return (VInt 42)
  ∧ result_of (normal_call (class_of Clash_body) "foo_async" (VObj 0)
                 [VInt 41] 0 scheduled_world)
    ≠ result_of ((o ← call_attr (AAsync (plain foo_async))
                        [VObj 0; VInt 41];
                  await o) 0 scheduled_world).
Proof. by repeat split. Qed.

(** ** Well-formedness is kept by the host and by [run_sync] *)

Lemma wf_view w w' : scheduler_view w' = scheduler_view w → wf w → wf w'.
Proof.
  unfold scheduler_view. intros [= H1 H2 H3 H4 H5 H6 H7] [? ? ? ? ?].
  split; by rewrite ?H1, ?H2, ?H3, ?H4, ?H5, ?H6, ?H7.
Qed.

Lemma wf_start_loop t w :
  wf w → t ∈ live_threads w → running_loop w !! t = None →
  wf (start_loop t (next_loop w) w).
Proof.
  intros [Hrun Hloops Hlive Hsched Haw] Ht Hidle. split; cbn; try done.
  - apply map_Forall_insert_2; [by rewrite lookup_insert_eq|].
    intros t2 l2 H2. cbn. rewrite lookup_insert_ne; [by apply Hrun|].
    intros <-. apply Hrun in H2. apply Hloops in H2. cbn in H2. lia.
  - apply map_Forall_insert_2; [lia|].
    eapply map_Forall_impl; [exact Hloops|]. cbn. lia.
  - by apply map_Forall_insert_2.
Qed.

Lemma wf_stop_loop t l w :
  wf w → running_loop w !! t = Some l → wf (stop_loop t l w).
Proof.
  intros [Hrun Hloops Hlive Hsched Haw] Hl. split; cbn; try done.
  - intros t2 l2 H2. cbn. apply lookup_delete_Some in H2 as [Hne H2].
    rewrite lookup_delete_ne; [by apply Hrun|].
    intros <-. apply Hrun in H2. apply Hrun in Hl. cbn in *. congruence.
  - intros l2 t2 H2. apply lookup_delete_Some in H2 as [_ H2].
    by eapply Hloops.
  - intros t2 l2 H2. apply lookup_delete_Some in H2 as [_ H2].
    by eapply Hsched.
Qed.

Lemma wf_await_coro coro t w :
  wf w → co_id coro < next_coro w → wf (world_of (await_coro coro t w)).
Proof.
  intros Hwf Hid. unfold await_coro. case_bool_decide; [done|].
  destruct Hwf as [Hrun Hloops Hlive Hsched Haw]. split; cbn; try done.
  intros c Hc. apply elem_of_union in Hc as [Hc|Hc]; [|by apply Haw].
  by apply elem_of_singleton in Hc as ->.
Qed.

Lemma wf_asyncio_run coro t w :
  wf w → t ∈ live_threads w → co_id coro < next_coro w →
  wf (world_of (asyncio_run coro t w)).
Proof.
  intros Hwf Ht Hid. unfold asyncio_run.
  destruct (running_loop w !! t) as [l|] eqn:Hl; [done|].
  pose proof (wf_await_coro coro t _ (wf_start_loop t w Hwf Ht Hl) Hid) as Hwf1.
  assert (Hrl : running_loop (world_of (await_coro coro t
                   (start_loop t (next_loop w) w))) !! t = Some (next_loop w)).
  { unfold await_coro. case_bool_decide; cbn; by rewrite lookup_insert_eq. }
  destruct (await_coro coro t (start_loop t (next_loop w) w)) as [[v|e|] w1];
    cbn in *; [by apply wf_stop_loop..|done].
Qed.

Lemma wf_spawn_thread w : wf w → wf (spawn_thread (next_thread w) w).
Proof.
  intros [Hrun Hloops Hlive Hsched Haw]. split; cbn; try done.
  - intros t Ht. apply elem_of_union in Ht as [Ht|Ht].
    + apply elem_of_singleton in Ht as ->. lia.
    + apply Hlive in Ht. cbn in *. lia.
  - intros t l Htl. apply elem_of_union. right. by eapply Hsched.
Qed.

Lemma wf_join_thread w wk :
  wf w → running_loop w !! wk = None → wf (join_thread w wk).
Proof.
  intros [Hrun Hloops Hlive Hsched Haw] Hidle. split; cbn; try done.
  - intros t Ht. apply elem_of_difference in Ht as [Ht _]. by apply Hlive.
  - intros t l Htl. apply elem_of_difference. split; [by eapply Hsched|].
    rewrite elem_of_singleton. intros ->. congruence.
Qed.

Lemma asyncio_run_idle_after coro t w :
  result_of (asyncio_run coro t w) ≠ Diverge →
  running_loop w !! t = None →
  running_loop (world_of (asyncio_run coro t w)) !! t = None.
Proof.
  unfold asyncio_run, await_coro. intros Hnd Hidle. rewrite Hidle in *.
  case_bool_decide; cbn in *; [by rewrite lookup_delete_eq|].
  destruct (co_body coro); cbn in *; by rewrite ?lookup_delete_eq.
Qed.

Lemma run_sync_wf coro t w :
  wf w → t ∈ live_threads w → co_id coro < next_coro w →
  wf (world_of (run_sync coro t w)).
Proof.
  intros Hwf Ht Hid.
  destruct (running_loop w !! t) as [l|] eqn:Hl;
    [|rewrite run_sync_no_loop by done; by apply wf_asyncio_run].
  unfold run_sync, try_except, run_sync_try, mbind, M_bind, bind,
    get_running_loop, is_running.
  rewrite Hl. rewrite (wf_running _ Hwf t l Hl).
  rewrite bool_decide_eq_true_2 by eauto.
  unfold with_ThreadPoolExecutor, ThreadPoolExecutor, submit, future_result,
    shutdown, mbind, M_bind, bind. cbn.
  set (wk := next_thread w).
  set (w1 := set_pools _ (spawn_thread _ _)).
  assert (Hwf1 : wf w1).
  { eapply wf_view; [|apply (wf_spawn_thread w Hwf)]. done. }
  assert (Hidle : running_loop w1 !! wk = None)
    by (subst w1 wk; cbn; by apply fresh_thread_idle).
  assert (Hwk : wk ∈ live_threads w1)
    by (subst w1; cbn; apply elem_of_union; left; by apply elem_of_singleton).
  pose proof (wf_asyncio_run coro wk w1 Hwf1 Hwk Hid) as Hwf2.
  pose proof (asyncio_run_idle_after coro wk w1) as Hidle2.
  destruct (asyncio_run_inline coro wk w1 Hidle) as (_ & _ & _ & Hp & Hrl).
  specialize (Hrl t (scheduled_thread_old w t l Hwf Hl)).
  destruct (asyncio_run coro wk w1) as [o w2]. cbn in *.
  assert (Hdone : o ≠ Diverge →
            wf (join_thread (set_pools (delete (next_pool w)) w2) wk)).
  { intros Hnd. apply wf_join_thread;
      [by apply (wf_view w2) | cbn; by apply Hidle2]. }
  rewrite Hp. subst w1. cbn. rewrite lookup_alter_eq, lookup_insert_eq. cbn.
  destruct o as [v|e|]; cbn; [by apply Hdone| |done].
  destruct (isinstance e RuntimeError); cbn; [|by apply Hdone].
  erewrite asyncio_run_refused; [by apply Hdone|].
  cbn. rewrite Hrl. cbn. exact Hl.
Qed.

(** * Further properties of the module *)

(** X1. Without a running event loop on the calling thread,
    [create_task] raises the [RuntimeError] of [asyncio.create_task] and
    changes nothing: no task exists, nothing is registered. *)
Theorem create_task_without_loop coro t w :
  running_loop w !! t = None →
  create_task coro t w = (Raise no_running_loop, w)
  ∧ isinstance no_running_loop RuntimeError = true.
Proof.
  intros Hno. split; [|done].
  unfold create_task, asyncio_create_task, get_running_loop,
    mbind, M_bind, bind.
  by rewrite Hno.
Qed.

Lemma create_task_without_loop_witness :
  create_task returns_7 0 initial_world = (Raise no_running_loop, initial_world).
Proof.
  apply (create_task_without_loop returns_7 0 initial_world). reflexivity.
Defined.

Lemma registered_below_next w h :
  registry_inv w → h ∈ BACKGROUND_TASKS w → h < next_task w.
Proof.
  intros [Hreg Hfresh] Hin. destruct (Hreg h Hin) as (tk & Hh & _).
  by apply Hfresh in Hh.
Qed.

(** X2. Under a running loop [create_task] returns a handle that was
    not registered before, whatever the coroutine would do.  The registry
    gains exactly that handle, the task is pending with the discard
    callback as its only callback, the other tasks are as they were, and
    the coroutine has not been driven. *)
Theorem create_task_registers_fresh_handle coro t w l :
  reachable w → running_loop w !! t = Some l →
  let h := next_task w in
  let w' := world_of (create_task coro t w) in
  result_of (create_task coro t w) = Return h
  ∧ (h ∉ BACKGROUND_TASKS w)
  ∧ BACKGROUND_TASKS w' = {[h]} ∪ BACKGROUND_TASKS w
  ∧ tasks w' !! h = Some (Task (co_id coro) l Pending [CbDiscard])
  ∧ (∀ h', h' ≠ h → tasks w' !! h' = tasks w !! h')
  ∧ ready w' = ready w
  ∧ trace w' = trace w
  ∧ awaited w' = awaited w.
Proof.
  intros Hreach Hl h w'. subst h w'.
  assert (Hfresh : next_task w ∉ BACKGROUND_TASKS w).
  { intros Hin. apply registered_below_next in Hin; [lia|].
    by apply reachable_inv. }
  unfold create_task, asyncio_create_task, new_task, BACKGROUND_TASKS_add,
    add_done_callback, get_running_loop, mbind, M_bind, bind, mret, M_ret, ret.
  rewrite Hl. cbn. rewrite lookup_insert_eq. cbn.
  rewrite insert_insert_eq, lookup_insert_eq.
  repeat split; try done.
  intros h' Hne. by rewrite lookup_insert_ne.
Qed.

Lemma create_task_registers_fresh_handle_witness :
  result_of (create_task raises_boom 0 scheduled_world) = Return 0
  ∧ BACKGROUND_TASKS (world_of (create_task raises_boom 0 scheduled_world))
    = {[0]} ∪ BACKGROUND_TASKS scheduled_world.
Proof.
  destruct (create_task_registers_fresh_handle raises_boom 0 scheduled_world 0
              reachable_scheduled eq_refl) as (Hr & _ & Hb & _).
  split; [exact Hr | exact Hb].
Defined.




(** X4. A call of [run_sync] that comes back leaves the scheduler state
    as it found it, on both paths: the same running loops, the same loop
    owners, the same live threads. *)
Lemma asyncio_run_restores coro t w :
  wf w → running_loop w !! t = None →
  result_of (asyncio_run coro t w) ≠ Diverge →
  running_loop (world_of (asyncio_run coro t w)) = running_loop w
  ∧ loop_thread (world_of (asyncio_run coro t w)) = loop_thread w
  ∧ next_thread (world_of (asyncio_run coro t w)) = next_thread w.
Proof.
  intros Hwf Hno. unfold asyncio_run, await_coro. rewrite Hno.
  assert (Hl : loop_thread w !! next_loop w = None).
  { destruct (loop_thread w !! next_loop w) eqn:E; [|done].
    apply (wf_loops _ Hwf) in E. cbn in E. lia. }
  case_bool_decide; cbn.
  - intros _. by rewrite !delete_insert_id.
  - destruct (co_body coro); cbn; intros Hnd; [| |done];
      by rewrite !delete_insert_id.
Qed.

Theorem run_sync_restores_scheduler_state coro t w :
  wf w → result_of (run_sync coro t w) ≠ Diverge →
  running_loop (world_of (run_sync coro t w)) = running_loop w
  ∧ loop_thread (world_of (run_sync coro t w)) = loop_thread w
  ∧ live_threads (world_of (run_sync coro t w)) = live_threads w.
Proof.
  intros Hwf Hnd.
  destruct (running_loop w !! t) as [l|] eqn:Hl.
  - destruct (run_sync_isolated coro t w l Hwf Hl) as (Hr & _ & Hlive).
    assert (Hnd' : await_outcome coro w ≠ Diverge).
    { intros Hd. apply Hnd. rewrite Hr. by apply isolated_outcome_diverge. }
    assert (Hlive' : live_threads (world_of (run_sync coro t w)) = live_threads w).
    { rewrite Hlive. by destruct (await_outcome coro w). }
    clear Hr Hlive. revert Hnd Hlive'.
    unfold run_sync, try_except, run_sync_try, mbind, M_bind, bind,
      get_running_loop, is_running.
    rewrite Hl. rewrite (wf_running _ Hwf t l Hl).
    rewrite bool_decide_eq_true_2 by eauto.
    unfold with_ThreadPoolExecutor, ThreadPoolExecutor, submit, future_result,
      shutdown, mbind, M_bind, bind. cbn.
    set (wk := next_thread w).
    set (w1 := set_pools _ (spawn_thread _ _)).
    assert (Hwf1 : wf w1).
    { eapply wf_view; [|apply (wf_spawn_thread w Hwf)]. done. }
    assert (Hidle : running_loop w1 !! wk = None)
      by (subst w1 wk; cbn; by apply fresh_thread_idle).
    destruct (asyncio_run_inline coro wk w1 Hidle) as (Ho & _ & _ & Hp & Hrl).
    specialize (Hrl t (scheduled_thread_old w t l Hwf Hl)).
    pose proof (asyncio_run_restores coro wk w1 Hwf1 Hidle) as Hres.
    change (await_outcome coro w1) with (await_outcome coro w) in Ho.
    rewrite Ho in Hres. specialize (Hres Hnd') as (Hrun & Hlt & _).
    destruct (asyncio_run coro wk w1) as [o w2]. cbn in *.
    rewrite Hp. subst w1. cbn in *. rewrite lookup_alter_eq, lookup_insert_eq. cbn.
    subst o.
    destruct (await_outcome coro w) as [v|e|]; cbn; [| |done].
    + done.
    + destruct (isinstance e RuntimeError); cbn.
      * erewrite asyncio_run_refused by (cbn; rewrite Hrl; exact Hl). cbn.
        done.
      * done.
  - revert Hnd. rewrite run_sync_no_loop by done. intros Hnd.
    destruct (asyncio_run_restores coro t w Hwf Hl Hnd) as (Hrun & Hlt & _).
    destruct (asyncio_run_inline coro t w Hl) as (_ & _ & Hlive & Hp & _).
    done.
Qed.

Lemma run_sync_restores_scheduler_state_witness :
  running_loop (world_of (run_sync raises_boom 0 scheduled_world))
  = running_loop scheduled_world
  ∧ live_threads (world_of (run_sync raises_boom 0 scheduled_world))
    = live_threads scheduled_world.
Proof.
  destruct (run_sync_restores_scheduler_state raises_boom 0 scheduled_world
              wf_scheduled) as (Hr & _ & Hl).
  - discriminate.
  - split; [exact Hr | exact Hl].
Defined.

(** Witness for [run_sync_propagates_error]. *)
Lemma run_sync_propagates_error_witness :
  result_of (run_sync (Coroutine 0 (Raise value_boom)) 0 scheduled_world)
  = Raise value_boom.
Proof.
  apply (run_sync_propagates_error (Coroutine 0 (Raise value_boom)) 0
           scheduled_world value_boom wf_scheduled).
  - right. reflexivity.
  - reflexivity.
Defined.

(** X6. A coroutine object is good for one [run_sync]: after a call
    that came back, a second [run_sync] on the same object (no loop
    running) raises [RuntimeError] for the reused coroutine; a loop is
    started and stopped, and the body is not driven again. *)
Lemma asyncio_run_marks_awaited coro t w :
  running_loop w !! t = None →
  co_id coro ∈ awaited (world_of (asyncio_run coro t w)).
Proof.
  intros Hno. unfold asyncio_run, await_coro. rewrite Hno.
  case_bool_decide; cbn; [done|].
  destruct (co_body coro); cbn; apply elem_of_union; left;
    by apply elem_of_singleton.
Qed.

Theorem run_sync_same_coroutine_twice coro t w :
  running_loop w !! t = None →
  result_of (run_sync coro t w) ≠ Diverge →
  let w1 := world_of (run_sync coro t w) in
  result_of (run_sync coro t w1) = Raise reused_coroutine
  ∧ trace (world_of (run_sync coro t w1))
    = trace w1 ++ [EvLoopStart t (next_loop w1); EvLoopStop t (next_loop w1)].
Proof.
  intros Hno Hnd w1. subst w1. revert Hnd. rewrite (run_sync_no_loop coro t w Hno).
  intros Hnd.
  pose proof (asyncio_run_idle_after coro t w Hnd Hno) as Hidle.
  pose proof (asyncio_run_marks_awaited coro t w Hno) as Haw.
  rewrite run_sync_no_loop by done.
  destruct (asyncio_run_inline coro t _ Hidle) as (-> & -> & _).
  unfold loop_events, drive_events, await_outcome.
  by rewrite !bool_decide_eq_true_2 by done.
Qed.

Lemma run_sync_same_coroutine_twice_witness :
  result_of (run_sync returns_7 0 (world_of (run_sync returns_7 0 initial_world)))
  = Raise reused_coroutine.
Proof.
  destruct (run_sync_same_coroutine_twice returns_7 0 initial_world) as [H _].
  - reflexivity.
  - discriminate.
  - exact H.
Defined.










(** X10. A class without twin declarations comes out of
    [__init_subclass__] unchanged. *)
Theorem init_subclass_without_declarations cls :
  Forall (λ ka, _sync_name ka.2 = None) cls →
  __init_subclass__ cls = Return cls.
Proof.
  unfold __init_subclass__. generalize cls at 2 4 as d.
  induction cls as [|[k a] cls IH]; intros d Hall; cbn; [done|].
  apply Forall_cons in Hall as [Ha Hall]. cbn in Ha.
  unfold hasattr_sync_name. rewrite Ha. cbn.
  rewrite andb_false_r. by apply IH.
Qed.

Lemma init_subclass_without_declarations_witness :
  __init_subclass__ Plain_body = Return Plain_body.
Proof.
  apply (init_subclass_without_declarations Plain_body).
  repeat constructor.
Defined.





(** X12. A name that no member declares as twin name keeps the binding
    it had in the class body, whatever it holds (data, a plain function,
    a scheduled method). *)
Theorem init_subclass_keeps_undeclared_names cls cls' k :
  __init_subclass__ cls = Return cls' →
  Forall (λ ka, _sync_name ka.2 ≠ Some k) cls →
  getattr cls' k = getattr cls k.
Proof.
  unfold __init_subclass__. intros Hinit Hall.
  eapply foldl_install_other; [exact Hinit|]. by apply Forall_fmap.
Qed.

Lemma init_subclass_keeps_undeclared_names_witness :
  getattr (class_of Mixed_body) "limit" = Some (AData (VInt 3)).
Proof.
  rewrite (init_subclass_keeps_undeclared_names Mixed_body
             (class_of Mixed_body) "limit").
  - reflexivity.
  - reflexivity.
  - repeat constructor; cbn; discriminate.
Defined.

(** X13. A twin creates a new coroutine object at every call, so it
    can be called again: with no loop running, after a call that came
    back, a second call gives the outcome of the method on the new
    arguments. *)
Lemma sync_wrapper_wf (f : async_fn) (args : list pyval) t w :
  wf w → t ∈ live_threads w → wf (world_of (sync_wrapper f args t w)).
Proof.
  intros Hwf Ht. unfold sync_wrapper, call_async, mbind, M_bind, bind.
  apply run_sync_wf; [by apply wf_set_next_coro|done|cbn; lia].
Qed.

Theorem twin_can_be_called_repeatedly (f : async_fn) args1 args2 t w :
  wf w → t ∈ live_threads w → running_loop w !! t = None →
  f args1 ≠ Diverge →
  let r1 := sync_wrapper f args1 t w in
  result_of r1 = f args1
  ∧ result_of (sync_wrapper f args2 t (world_of r1)) = f args2.
Proof.
  intros Hwf Ht Hno Hnd r1. subst r1.
  pose proof (sync_wrapper_result f args1 t w Hwf (or_introl Hno)) as Hr1.
  split; [done|].
  apply sync_wrapper_result; [by apply sync_wrapper_wf|]. left.
  revert Hr1. unfold sync_wrapper, call_async, mbind, M_bind, bind.
  intros Hr1.
  assert (Hno1 : running_loop (set_next_coro S w) !! t = None) by done.
  rewrite run_sync_no_loop in * by done.
  apply asyncio_run_idle_after; [|done]. by rewrite Hr1.
Qed.

Lemma twin_can_be_called_repeatedly_witness :
  result_of (sync_wrapper foo_async [VObj 0; VInt 1] 0
               (world_of (sync_wrapper foo_async [VObj 0; VInt 41] 0
                            initial_world)))
  = Return (VInt 2).
Proof.
  destruct (twin_can_be_called_repeatedly foo_async [VObj 0; VInt 41]
              [VObj 0; VInt 1] 0 initial_world wf_initial) as [_ H].
  - compute_done.
  - reflexivity.
  - discriminate.
  - exact H.
Defined.

(** X14. A twin called from a thread with a running event loop runs
    the method on a worker thread started for the call: the coroutine it
    created is driven there and no event of the call is on the caller's
    thread. *)
Theorem twin_in_scheduled_code_runs_on_worker (f : async_fn) args t w l :
  wf w → running_loop w !! t = Some l →
  let r := sync_wrapper f args t w in
  let wk := next_thread w in
  ∃ evs, trace (world_of r) = trace w ++ EvSpawn wk :: evs
         ∧ wk ≠ t
         ∧ Forall (λ e, event_thread e ≠ t) evs
         ∧ EvDrive wk (next_coro w) ∈ evs
         ∧ result_of r = isolated_outcome (f args).
Proof.
  intros Hwf Hl r wk. subst r wk.
  unfold sync_wrapper, call_async, mbind, M_bind, bind.
  set (coro := Coroutine (next_coro w) (f args)).
  set (w1 := set_next_coro S w).
  assert (Hwf1 : wf w1) by (by apply wf_set_next_coro).
  assert (Hne : next_thread w ≠ t)
    by (symmetry; by eapply scheduled_thread_old).
  destruct (run_sync_isolated coro t w1 l Hwf1 Hl) as (Hr & Htr & _).
  assert (Hout : await_outcome coro w1 = f args)
    by (by apply fresh_coro_outcome).
  rewrite Hout in Hr.
  exists (isolated_events (next_thread w) coro w1).
  split; [exact Htr|]. split; [done|]. split; [|split; [|done]].
  - eapply Forall_impl; [apply isolated_events_thread|].
    intros e He. cbn in He. by rewrite He.
  - unfold isolated_events, loop_events, drive_events.
    rewrite bool_decide_eq_false_2.
    + cbn. apply list_elem_of_further, list_elem_of_here.
    + cbn. intros Hin. apply (wf_awaited _ Hwf) in Hin. cbn in Hin. lia.
Qed.

Lemma twin_in_scheduled_code_runs_on_worker_witness :
  ∃ evs, trace (world_of (sync_wrapper foo_async [VObj 0; VInt 41] 0
                            scheduled_world))
         = trace scheduled_world ++ EvSpawn 1 :: evs
         ∧ EvDrive 1 0 ∈ evs.
Proof.
  destruct (twin_in_scheduled_code_runs_on_worker foo_async [VObj 0; VInt 41]
              0 scheduled_world 0 wf_scheduled eq_refl)
    as (evs & Htr & _ & _ & Hin & _).
  exists evs. split; [exact Htr | exact Hin].
Defined.

(** X15. After [run_sync], the coroutine object has been awaited, on
    both paths. *)
Lemma join_threads_awaited ts w :
  awaited (foldl join_thread w ts) = awaited w.
Proof.
  revert w. induction ts as [|wk ts IH]; intros w; [done|].
  cbn. by rewrite IH.
Qed.

Lemma asyncio_run_awaited_mono coro t w c :
  c ∈ awaited w → c ∈ awaited (world_of (asyncio_run coro t w)).
Proof.
  intros Hc. unfold asyncio_run, await_coro.
  destruct (running_loop w !! t); [done|].
  case_bool_decide; cbn; [done|].
  destruct (co_body coro); cbn; apply elem_of_union; by right.
Qed.

Theorem run_sync_consumes_coroutine coro t w :
  wf w → co_id coro ∈ awaited (world_of (run_sync coro t w)).
Proof.
  intros Hwf. destruct (running_loop w !! t) as [l|] eqn:Hl;
    [|rewrite run_sync_no_loop by done; by apply asyncio_run_marks_awaited].
  unfold run_sync, try_except, run_sync_try, mbind, M_bind, bind,
    get_running_loop, is_running.
  rewrite Hl. rewrite (wf_running _ Hwf t l Hl).
  rewrite bool_decide_eq_true_2 by eauto.
  unfold with_ThreadPoolExecutor, ThreadPoolExecutor, submit, future_result,
    shutdown, mbind, M_bind, bind. cbn.
  set (wk := next_thread w).
  set (w1 := set_pools _ (spawn_thread _ _)).
  assert (Hidle : running_loop w1 !! wk = None)
    by (subst w1 wk; cbn; by apply fresh_thread_idle).
  pose proof (asyncio_run_marks_awaited coro wk w1 Hidle) as Haw.
  destruct (asyncio_run coro wk w1) as [o w2]. cbn in *.
  destruct o as [v|e|]; cbn; [by rewrite join_threads_awaited| |done].
  destruct (isinstance e RuntimeError); cbn;
    [|by rewrite join_threads_awaited].
  apply asyncio_run_awaited_mono. by rewrite join_threads_awaited.
Qed.

Lemma run_sync_consumes_coroutine_witness :
  0 ∈ awaited (world_of (run_sync raises_boom 0 scheduled_world)).
Proof.
  apply (run_sync_consumes_coroutine raises_boom 0 scheduled_world
           wf_scheduled).
Defined.
